(** * LUNA r0.3 platform: board description and toolchain orchestration

    Shallow embedding of [luna/gateware/platform/luna_r0_3.py]
    (class [LUNAPlatformRev0D3]) and the properties its specification
    states about it.

    The module has two halves:
    - class-level data ([speed], [resources], [connectors], ...), evaluated
      once when the class body runs;
    - four methods, [toolchain_prepare], [toolchain_program],
      [toolchain_flash] and [toolchain_erase], which drive external
      services (the nMigen build system and the Apollo debug probe).

    The external services are not part of the file.  They are represented
    by a stub that decides the outcome of every call, and every call the
    methods make is recorded, with its outcome, in a log. *)

From Stdlib Require Import ZArith.
From Stdlib.Strings Require Import Byte Ascii String.
From stdpp Require Import gmap strings list.

(** ** Python values and exceptions *)

(** The exceptions that cross this layer.  The first five are the error
    taxonomy of the orchestrator; [TypeError] is what Python raises when a
    call receives the same keyword argument twice. *)
Inductive exn : Set :=
  | ArtifactNotFound
  | ConnectionError
  | ProgramError
  | FlashError
  | PreconditionRepairFailed
  | TypeError.

(** The outcome of evaluating a Python expression. *)
Inductive result (A : Type) : Type :=
  | Ok (a : A)
  | Raise (e : exn).
Arguments Ok {A} a.
Arguments Raise {A} e.

Definition result_bind {A B} (r : result A) (k : A → result B) : result B :=
  match r with
  | Ok a => k a
  | Raise e => Raise e
  end.

(** A bitstream is the [bytes] object returned by the build products. *)
Abbreviation bitstream := (list byte).

(** ** The probe and its call log *)

(** The two sub-channels of the debug connection, [debugger.jtag] and
    [debugger.flash]. *)
Inductive channel : Set := JTAG | Flash.

#[global] Instance channel_eq_dec : EqDecision channel.
Proof. solve_decision. Defined.

(** Every call the methods make on an external collaborator. *)
Inductive call : Type :=
  | ApolloDebugger_new                       (* ApolloDebugger()            *)
  | ensure_gateware_call                     (* ensure_flash_gateware_loaded *)
  | products_get (key : string)              (* products.get(key)           *)
  | channel_enter (c : channel)              (* with debugger.<c> as ...    *)
  | channel_exit (c : channel)               (* ... end of the with block   *)
  | jtag_configure (bs : bitstream)          (* programmer.configure(bs)    *)
  | flash_program (bs : bitstream)           (* flash.program(bs)           *)
  | flash_erase                              (* flash.erase()               *)
  | debugger_soft_reset.                     (* debugger.soft_reset()       *)

(** A log entry is a call together with its outcome: [None] when it
    returned, [Some e] when it raised [e]. *)
Abbreviation entry := (call * option exn)%type.

(** The fault-injected probe: one outcome per external call.  [None] lets
    the call return, [Some e] makes it raise [e].

    Modelled from the spec: the sub-channels are scoped resources.  Leaving
    a [with] block is therefore not listed among the calls that can fail:
    the exit of a sub-channel always releases it, and it does not swallow
    the exception of the body. *)
Record Stub : Type := {
  connect          : option exn;
  ensure_gateware  : option exn;
  acquire          : channel → option exn;
  configure        : bitstream → option exn;
  program_flash    : bitstream → option exn;
  erase_flash      : option exn;
  soft_reset       : option exn
}.

(** A stub whose JTAG programmer fails, everything else succeeding. *)
Definition faulty_programmer : Stub := {|
  connect := None; ensure_gateware := None; acquire := λ _, None;
  configure := λ _, Some ProgramError; program_flash := λ _, None;
  erase_flash := None; soft_reset := None
|}.

(** A probe that cannot be reached: [ApolloDebugger()] raises. *)
Definition unreachable : Stub := {|
  connect := Some ConnectionError; ensure_gateware := None;
  acquire := λ _, None; configure := λ _, None; program_flash := λ _, None;
  erase_flash := None; soft_reset := None
|}.

(** A probe on which every call succeeds. *)
Definition healthy : Stub := {|
  connect := None; ensure_gateware := None; acquire := λ _, None;
  configure := λ _, None; program_flash := λ _, None;
  erase_flash := None; soft_reset := None
|}.

(** ** The monad of the methods: exceptions over a call log *)

Definition M (A : Type) : Type := list entry → result A * list entry.

Definition ret {A} (a : A) : M A := λ log, (Ok a, log).

Definition bind {A B} (m : M A) (k : A → M B) : M B :=
  λ log, match m log with
         | (Ok a, log') => k a log'
         | (Raise e, log') => (Raise e, log')
         end.

#[global] Instance M_ret : MRet M := @ret.
#[global] Instance M_bind : MBind M := λ A B k m, bind m k.

(** The outcome of a call decided by the stub, as a result. *)
Definition outcome (o : option exn) : result unit :=
  match o with None => Ok tt | Some e => Raise e end.

(** An external call whose outcome the stub decides. *)
Definition external (c : call) (o : option exn) : M unit :=
  λ log, (outcome o, log ++ [(c, o)]).

(** Run a method from an empty log. *)
Definition run {A} (m : M A) : result A * list entry := m [].

(** [with debugger.<c> as ch: body].  If entering raises, the body does not
    run and nothing is released; otherwise the body runs and the channel is
    released whether the body returned or raised, and the body's outcome is
    the outcome of the block. *)
Definition with_channel {A} (probe : Stub) (c : channel) (body : M A) : M A :=
  λ log,
    match acquire probe c with
    | Some e => (Raise e, log ++ [(channel_enter c, Some e)])
    | None =>
        let '(r, log') := body (log ++ [(channel_enter c, None)]) in
        (r, log' ++ [(channel_exit c, None)])
    end.

(** ** The artifact store *)

(** Modelled from the spec: the build products object is an artifact store
    keyed by file name; [get] returns the stored image and fails with
    [ArtifactNotFound] when the key is absent. *)
Definition BuildProducts_get (products : gmap string bitstream) (key : string)
  : M bitstream :=
  λ log,
    match products !! key with
    | Some bs => (Ok bs, log ++ [(products_get key, None)])
    | None => (Raise ArtifactNotFound,
               log ++ [(products_get key, Some ArtifactNotFound)])
    end.

(** ["{}.bit".format(name)] *)
Definition bit_key (name : string) : string := name +:+ ".bit".

(** ** The programming methods *)

Section Toolchain.
Variable probe : Stub.

Definition ApolloDebugger : M unit :=
  external ApolloDebugger_new (connect probe).

Definition ensure_flash_gateware_loaded : M unit :=
  external ensure_gateware_call (ensure_gateware probe).

(** [toolchain_program(self, products, name)].  The programmer object
    [ECP5_JTAGProgrammer(jtag)] only wraps the channel it is given; building
    it is not a call on the probe. *)
Definition toolchain_program (products : gmap string bitstream)
    (name : string) : M unit :=
  debugger ← ApolloDebugger;
  bitstream ← BuildProducts_get products (bit_key name);
  with_channel probe JTAG
    (external (jtag_configure bitstream) (configure probe bitstream)).

(** [toolchain_flash(self, products, name="top")]; [None] is a call that
    omits [name].  The argument [platform=self.__class__()] of
    [ensure_flash_gateware_loaded] is a fresh platform instance; making it
    has no effect on the probe. *)
Definition toolchain_flash (products : gmap string bitstream)
    (name : option string) : M unit :=
  let name := default "top" name in
  debugger ← ApolloDebugger;
  ensure_flash_gateware_loaded;;
  bitstream ← BuildProducts_get products (bit_key name);
  with_channel probe Flash
    (external (flash_program bitstream) (program_flash probe bitstream));;
  external debugger_soft_reset (soft_reset probe).

(** [toolchain_erase(self)] *)
Definition toolchain_erase : M unit :=
  debugger ← ApolloDebugger;
  ensure_flash_gateware_loaded;;
  with_channel probe Flash
    (external flash_erase (erase_flash probe));;
  external debugger_soft_reset (soft_reset probe).

End Toolchain.

(** ** Observing a call log *)

Definition is_connect (c : call) : bool :=
  match c with ApolloDebugger_new => true | _ => false end.

Definition is_ensure (c : call) : bool :=
  match c with ensure_gateware_call => true | _ => false end.

Definition is_get (c : call) : bool :=
  match c with products_get _ => true | _ => false end.

Definition is_soft_reset (c : call) : bool :=
  match c with debugger_soft_reset => true | _ => false end.

(** The hardware-mutating calls: the ones that change the FPGA's
    configuration SRAM or the SPI flash. *)
Definition is_hw_mutation (c : call) : bool :=
  match c with
  | jtag_configure _ | flash_program _ | flash_erase => true
  | _ => false
  end.

Definition is_configure (c : call) : bool :=
  match c with jtag_configure _ => true | _ => false end.

Definition is_flash_program (c : call) : bool :=
  match c with flash_program _ => true | _ => false end.

Definition is_flash_erase (c : call) : bool :=
  match c with flash_erase => true | _ => false end.

(** The channel a call goes through, if any. *)
Definition channel_of (c : call) : option channel :=
  match c with
  | channel_enter ch | channel_exit ch => Some ch
  | jtag_configure _ => Some JTAG
  | flash_program _ | flash_erase => Some Flash
  | _ => None
  end.

Definition uses (ch : channel) (c : call) : bool :=
  bool_decide (channel_of c = Some ch).

(** Number of calls in the log that satisfy [p], whatever their outcome. *)
Fixpoint count_calls (p : call → bool) (log : list entry) : nat :=
  match log with
  | [] => 0
  | (c, _) :: log => (if p c then 1 else 0) + count_calls p log
  end.

(** Number of successful acquisitions, and of releases, of a channel. *)
Fixpoint acquired (ch : channel) (log : list entry) : nat :=
  match log with
  | [] => 0
  | (c, None) :: log =>
      (match c with
       | channel_enter ch' => if bool_decide (ch' = ch) then 1 else 0
       | _ => 0
       end) + acquired ch log
  | (_, Some _) :: log => acquired ch log
  end.

Fixpoint released (ch : channel) (log : list entry) : nat :=
  match log with
  | [] => 0
  | (c, _) :: log =>
      (match c with
       | channel_exit ch' => if bool_decide (ch' = ch) then 1 else 0
       | _ => 0
       end) + released ch log
  end.

(** Whether a channel is held after the calls of the log, given whether it
    was held before. *)
Fixpoint holding (ch : channel) (held : bool) (log : list entry) : bool :=
  match log with
  | [] => held
  | (channel_enter ch', None) :: log =>
      holding ch (held || bool_decide (ch' = ch)) log
  | (channel_exit ch', _) :: log =>
      holding ch (held && negb (bool_decide (ch' = ch))) log
  | _ :: log => holding ch held log
  end.

(** Acquisition and release are balanced in a log: each sub-channel was
    released as often as it was acquired, none is held at the end, and
    there are at least as many releases as hardware-mutating calls. *)
Definition balanced (log : list entry) : Prop :=
  (∀ ch, acquired ch log = released ch log)
  ∧ (∀ ch, holding ch false log = false)
  ∧ count_calls is_hw_mutation log ≤ released JTAG log + released Flash log.

(** Whether the debug connection is open after the calls of a log, given
    whether it was open before.  [ApolloDebugger()] opens it when it
    returns.  None of the calls the methods make closes it: the debugger
    object is not used as a context manager and no method that would
    release it is called on it. *)
Fixpoint connection_open (opened : bool) (log : list entry) : bool :=
  match log with
  | [] => opened
  | (ApolloDebugger_new, None) :: log => connection_open true log
  | _ :: log => connection_open opened log
  end.

(** [guarded p q seen log]: every call satisfying [q] comes after a call
    satisfying [p] that returned ([seen] says one came before the log). *)
Fixpoint guarded (p q : call → bool) (seen : bool) (log : list entry) : bool :=
  match log with
  | [] => true
  | (c, o) :: log =>
      (negb (q c) || seen)
      && guarded p q (seen || (p c && bool_decide (o = None))) log
  end.

(** ** Strings *)

(** The ASCII characters Python's [str.isspace] accepts. *)
Definition isspace (a : ascii) : bool :=
  let n := nat_of_ascii a in
  ((9 <=? n) && (n <=? 13)) || ((28 <=? n) && (n <=? 32)).

(** [s.split()]: the maximal runs of non-whitespace characters of [s], in
    order.  [cur] is the run being read. *)
Fixpoint split_go (cur : string) (s : string) : list string :=
  match s with
  | EmptyString => if decide (cur = "") then [] else [cur]
  | String a s' =>
      if isspace a
      then (if decide (cur = "") then [] else [cur]) ++ split_go "" s'
      else split_go (cur +:+ String a "") s'
  end.

Definition split (s : string) : list string := split_go "" s.

(** ** Option merging: [toolchain_prepare] *)

(** A call that unpacks two dictionaries as keyword arguments, as in
    [f( **kw1, **kw2 )]: Python builds one keyword dictionary out of the two
    and raises [TypeError] when a keyword occurs in both. *)
Definition keyword_call (kw1 kw2 : gmap string string)
  : result (gmap string string) :=
  if decide (kw1 ##ₘ kw2) then Ok (kw1 ∪ kw2) else Raise TypeError.

(** The named parameters of [toolchain_prepare]; a call fills them by
    position ([self] being the platform the method is called on). *)
Definition parameters : list string := ["self"; "fragment"; "name"].

(** Binding the keywords of a call whose named parameters are already
    filled by position: a keyword that names one of them would give that
    parameter a second value and Python raises [TypeError]; otherwise the
    keywords are what [**kwargs] collects. *)
Definition bind_kwargs (params : list string) (keywords : gmap string string)
  : result (gmap string string) :=
  if decide (Forall (λ p, keywords !! p = None) params)
  then Ok keywords else Raise TypeError.

Section Prepare.
(** The elaborated design handed to the build system; opaque here. *)
Variable Fragment : Type.

(** The description of the external compiler invocation: the design, the
    build name and the toolchain options in force. *)
Record BuildPlan : Type := {
  plan_fragment : Fragment;
  plan_name     : string;
  plan_options  : gmap string string
}.

(** Modelled from the spec: [super().toolchain_prepare], the build
    system's own method, performs no hardware I/O and returns the
    description of the compiler invocation for the options it is given. *)
Definition super_toolchain_prepare (fragment : Fragment) (name : string)
    (kwargs : gmap string string) : BuildPlan :=
  {| plan_fragment := fragment; plan_name := name; plan_options := kwargs |}.

(** [toolchain_prepare(self, fragment, name, **kwargs)], called with the
    fragment and the name by position and the caller's options as keywords.
    Binding the call comes first: an option named like a parameter never
    reaches the body.  The body then merges the board's [overrides] with
    the collected [kwargs] in the call of the build system's method. *)
Definition toolchain_prepare (fragment : Fragment) (name : string)
    (options : gmap string string) : result BuildPlan :=
  result_bind (bind_kwargs parameters options) (λ kwargs,
    let overrides : gmap string string :=
      {[ "ecppack_opts" := "--compress --freq 38.8" ]} in
    result_bind (keyword_call overrides kwargs)
      (λ kw, Ok (super_toolchain_prepare fragment name kw))).

(** The bitstream-packer command line of a plan, as a list of words. *)
Definition ecppack_words (plan : BuildPlan) : list string :=
  split (default "" (plan_options plan !! "ecppack_opts")).

(** The word that follows a flag on a command line. *)
Fixpoint flag_value (flag : string) (ws : list string) : option string :=
  match ws with
  | [] => None
  | w :: ws' =>
      if decide (w = flag) then head ws' else flag_value flag ws'
  end.

Definition compression_enabled (plan : BuildPlan) : bool :=
  bool_decide ("--compress" ∈ ecppack_words plan).

Definition config_frequency (plan : BuildPlan) : option string :=
  flag_value "--freq" (ecppack_words plan).

(** The board-mandated packer options are in force in a plan. *)
Definition mandated (plan : BuildPlan) : Prop :=
  plan_options plan !! "ecppack_opts" = Some "--compress --freq 38.8"
  ∧ compression_enabled plan = true
  ∧ config_frequency plan = Some "38.8".
End Prepare.

Arguments plan_fragment {Fragment} _.
Arguments plan_name {Fragment} _.
Arguments plan_options {Fragment} _.
Arguments toolchain_prepare {Fragment} _ _ _.
Arguments super_toolchain_prepare {Fragment} _ _ _.
Arguments ecppack_words {Fragment} _.
Arguments compression_enabled {Fragment} _.
Arguments config_frequency {Fragment} _.
Arguments mandated {Fragment} _.

(** The keys a caller cannot give as an option: the key the board sets
    itself, and the names of the parameters. *)
Definition reserved_keys : list string := "ecppack_opts" :: parameters.

(** ** The build system's resource vocabulary

    [Pins], [PinsN], [DiffPairs], [Subsignal], [Attrs], [Clock], [Resource]
    and [Connector] come from [nmigen.build]; [UARTResource],
    [LEDResources] and [ULPIResource] from [nmigen_boards.resources].  They
    are plain data constructors: a pin string is split into pin names. *)

#[local] Set Warnings "-register-all".

Inductive IO : Type :=
  | MkPins (names : list string) (dir : string) (invert : bool)
  | MkDiffPairs (p n : list string) (dir : string)
  | Subsignal (name : string) (ios : list IO)
  | Attrs (kv : list (string * string))
  | Clock (hz : Z).

Definition Pins (names dir : string) : IO := MkPins (split names) dir false.
Definition PinsN (names dir : string) : IO := MkPins (split names) dir true.
Definition DiffPairs (p n dir : string) : IO :=
  MkDiffPairs (split p) (split n) dir.

Record Resource : Type := MkResource {
  res_name   : string;
  res_number : nat;
  res_ios    : list IO
}.

(** [Connector(name, number, io)]: position [i] of the header (counted from
    1) maps to the [i]-th word of [io], and the gap marker ["-"] maps
    nowhere. *)
Record Connector : Type := MkConnector {
  conn_name    : string;
  conn_number  : nat;
  conn_mapping : list (nat * string)
}.

Definition connector_mapping (io : string) : list (nat * string) :=
  filter (λ ip, ip.2 ≠ "-") (imap (λ i pin, (S i, pin)) (split io)).

Definition mkConnector (name : string) (number : nat) (io : string) : Connector :=
  MkConnector name number (connector_mapping io).

Definition UARTResource (number : nat) (rx tx : string) (attrs : IO) : Resource :=
  MkResource "uart" number
    [ Subsignal "rx" [Pins rx "i"]; Subsignal "tx" [Pins tx "o"]; attrs ].

Definition LEDResources (pins : string) (attrs : IO) (invert : bool)
  : list Resource :=
  imap (λ number pin, MkResource "led" number [MkPins [pin] "o" invert; attrs])
       (split pins).

Definition ULPIResource (name : string) (number : nat)
    (data clk clk_dir dir nxt stp rst : string) (rst_invert : bool)
    (attrs : IO) : Resource :=
  MkResource name number
    [ Subsignal "data" [Pins data "io"];
      Subsignal "clk"  [Pins clk clk_dir];
      Subsignal "dir"  [Pins dir "i"];
      Subsignal "nxt"  [Pins nxt "i"];
      Subsignal "stp"  [Pins stp "o"];
      Subsignal "rst"  [MkPins (split rst) "o" rst_invert];
      attrs ].

(** The physical pins an I/O description, a resource and a connector name. *)
Fixpoint io_pins (io : IO) : list string :=
  match io with
  | MkPins names _ _ => names
  | MkDiffPairs p n _ => p ++ n
  | Subsignal _ ios => flat_map io_pins ios
  | Attrs _ | Clock _ => []
  end.

Definition resource_pins (r : Resource) : list string :=
  flat_map io_pins (res_ios r).

Definition connector_pins (c : Connector) : list string :=
  (conn_mapping c).*2.

(** ** The class [LUNAPlatformRev0D3] *)

(** The process environment, and the names [os.getenv] was asked for. *)
Record os_state : Type := {
  environ    : gmap string string;
  getenv_log : list string
}.

(** [os.getenv(key, default)] *)
Definition os_getenv (key default_ : string) (st : os_state)
  : string * os_state :=
  (default default_ (environ st !! key),
   {| environ := environ st; getenv_log := getenv_log st ++ [key] |}).

(** A later change to the environment: [os.environ[k] = v] or
    [del os.environ[k]]. *)
Inductive env_change : Type :=
  | setenv (k v : string)
  | unsetenv (k : string).

Definition apply_change (ch : env_change) (st : os_state) : os_state :=
  match ch with
  | setenv k v =>
      {| environ := <[k := v]> (environ st); getenv_log := getenv_log st |}
  | unsetenv k =>
      {| environ := delete k (environ st); getenv_log := getenv_log st |}
  end.

Definition LVCMOS33 : IO := Attrs [("IO_TYPE", "LVCMOS33")].
Definition LVCMOS33_FAST : IO :=
  Attrs [("IO_TYPE", "LVCMOS33"); ("SLEWRATE", "FAST")].

(** The [resources] list of the class body. *)
Definition resources : list Resource :=
  [ MkResource "clk_60MHz" 0 [Pins "A8" "i"; Clock 60000000; LVCMOS33];
    MkResource "spi_flash" 0
      [ Subsignal "sdi" [Pins "T8" "o"];
        Subsignal "sdo" [Pins "T7" "i"];
        Subsignal "cs"  [PinsN "N8" "o"];
        LVCMOS33 ];
    UARTResource 0 "R14" "T14" LVCMOS33;
    MkResource "debug_spi" 0
      [ Subsignal "sck" [Pins "R13" "i"];
        Subsignal "sdi" [Pins "P13" "i"];
        Subsignal "sdo" [Pins "P11" "o"];
        Subsignal "cs"  [PinsN "T13" "i"];
        LVCMOS33 ] ]
  ++ LEDResources "T15 R15 R16 P15 P16 P14" LVCMOS33 true
  ++
  [ ULPIResource "sideband_phy" 0
      "R1 P3 P1 P2 N1 M2 M1 L2" "P4" "o" "T2" "R2" "R3" "T3" true
      LVCMOS33_FAST;
    ULPIResource "host_phy" 0
      "F1 F2 E1 E2 D1 E3 C1 C2" "J1" "o" "G1" "G2" "H2" "J2" true
      LVCMOS33_FAST;
    ULPIResource "target_phy" 0
      "E16 F14 F16 F15 G16 G15 H15 J16" "C15" "o" "D16" "E15" "D14" "C16" true
      LVCMOS33_FAST;
    MkResource "power_a_port" 0         [Pins "C14" "o"; LVCMOS33];
    MkResource "power_c_port" 0         [Pins "F13" "o"; LVCMOS33];
    MkResource "pass_through_vbus" 0    [Pins "B16" "o"; LVCMOS33];
    MkResource "target_c_to_a_fault" 0  [Pins "F12" "i"; LVCMOS33];
    MkResource "target_a_to_c_fault" 0  [Pins "E14" "i"; LVCMOS33];
    MkResource "target_5v_to_a_fault" 0 [Pins "B15" "i"; LVCMOS33];
    MkResource "ram" 0
      [ Subsignal "clk"   [DiffPairs "B14" "A15" "o";
                           Attrs [("IO_TYPE", "LVCMOS18D")]];
        Subsignal "dq"    [Pins "A11 B10 B12 A12 B11 A10 B9 A9" "io"];
        Subsignal "rwds"  [Pins "A13" "io"];
        Subsignal "cs"    [PinsN "A14" "o"];
        Subsignal "reset" [PinsN "B13" "o"];
        Attrs [("IO_TYPE", "LVCMOS18"); ("SLEWRATE", "FAST")] ];
    MkResource "user_io" 0 [Pins "C3" "io"; LVCMOS33_FAST];
    MkResource "user_io" 1 [Pins "D3" "io"; LVCMOS33_FAST] ].

(** The [connectors] list of the class body. *)
Definition connectors : list Connector :=
  [ mkConnector "pmod" 0 "A3 A4 A5 A6 - - C6 B6 C7 B7 - -";
    mkConnector "pmod" 1 "M5 N5 M4 N3 - - L4 L5 K4 K5 - -" ].

(** The class object: the attributes bound by the class body. *)
Record PlatformClass : Type := {
  name                          : string;
  device                        : string;
  package                       : string;
  speed                         : string;
  default_clk                   : string;
  default_usb_connection        : string;
  DEFAULT_CLOCK_FREQUENCIES_MHZ : gmap string Z;
  ram_timings                   : gmap string Z;
  ulpi_extra_registers          : gmap Z Z;
  cls_resources                 : list Resource;
  cls_connectors                : list Connector
}.

(** Running the class body, which happens once, when the module is
    imported.  The only statement with an effect is the [os.getenv] call
    that binds [speed]. *)
Definition LUNAPlatformRev0D3 (st : os_state) : PlatformClass * os_state :=
  let '(speed_grade, st') := os_getenv "LUNA_SPEED_GRADE" "8" st in
  ({| name := "LUNA r0.3";
      device := "LFE5U-12F";
      package := "BG256";
      speed := speed_grade;
      default_clk := "clk_60MHz";
      default_usb_connection := "target_phy";
      DEFAULT_CLOCK_FREQUENCIES_MHZ :=
        {[ "fast" := 240%Z; "sync" := 120%Z; "usb" := 60%Z ]};
      ram_timings := {[ "clock_skew" := 64%Z ]};
      ulpi_extra_registers := {[ 57%Z := 6%Z ]};
      cls_resources := resources;
      cls_connectors := connectors |},
   st').

(** A running process: the environment and the class object the import
    left behind. *)
Record process : Type := {
  proc_os  : os_state;
  proc_cls : PlatformClass
}.

Definition import_module (st : os_state) : process :=
  let '(cls, st') := LUNAPlatformRev0D3 st in
  {| proc_os := st'; proc_cls := cls |}.

Definition change_env (ch : env_change) (p : process) : process :=
  {| proc_os := apply_change ch (proc_os p); proc_cls := proc_cls p |}.

(** The process after a sequence of changes to its environment. *)
Definition change_env_all (changes : list env_change) (p : process) : process :=
  foldl (λ p ch, change_env ch p) p changes.

(** A platform instance, as made by [LUNAPlatformRev0D3()] or
    [self.__class__()]: it has no attributes of its own, so reading
    [self.speed] finds the attribute of its class. *)
Record instance : Type := { class_of : PlatformClass }.

Definition instantiate (p : process) : instance :=
  {| class_of := proc_cls p |}.

Definition self_speed (self : instance) : string := speed (class_of self).

(** All physical pins a class names, resources first. *)
Definition physical_pins (cls : PlatformClass) : list string :=
  flat_map resource_pins (cls_resources cls)
  ++ flat_map connector_pins (cls_connectors cls).

(** ** Further observations *)

(** The errors raised by the calls of a log, in the order they occurred. *)
Definition raised (log : list entry) : list exn := omap snd log.

Definition is_exit (c : call) : bool :=
  match c with channel_exit _ => true | _ => false end.

(** Number of calls in the log that satisfy [p] and returned. *)
Fixpoint returned (p : call → bool) (log : list entry) : nat :=
  match log with
  | [] => 0
  | (c, None) :: log => (if p c then 1 else 0) + returned p log
  | (_, Some _) :: log => returned p log
  end.

(** Two stubs answer alike on the calls of the JTAG side, and on the calls
    of the flash side. *)
Definition agree_jtag (p q : Stub) : Prop :=
  connect p = connect q
  ∧ acquire p JTAG = acquire q JTAG
  ∧ ∀ bs, configure p bs = configure q bs.

Definition agree_flash (p q : Stub) : Prop :=
  connect p = connect q
  ∧ ensure_gateware p = ensure_gateware q
  ∧ acquire p Flash = acquire q Flash
  ∧ (∀ bs, program_flash p bs = program_flash q bs)
  ∧ erase_flash p = erase_flash q
  ∧ soft_reset p = soft_reset q.

(** A stub whose flash side is broken throughout, the JTAG side working. *)
Definition broken_flash : Stub := {|
  connect := None; ensure_gateware := Some PreconditionRepairFailed;
  acquire := λ ch, match ch with JTAG => None | Flash => Some ConnectionError end;
  configure := λ _, None; program_flash := λ _, Some FlashError;
  erase_flash := Some FlashError; soft_reset := Some ConnectionError
|}.

(** A stub on which only the final soft reset fails. *)
Definition failing_reset : Stub := {|
  connect := None; ensure_gateware := None; acquire := λ _, None;
  configure := λ _, None; program_flash := λ _, None;
  erase_flash := None; soft_reset := Some ConnectionError
|}.

(** The variable a change to the environment touches. *)
Definition change_key (ch : env_change) : string :=
  match ch with setenv k _ | unsetenv k => k end.

(** The environment after a sequence of changes, oldest first. *)
Definition apply_changes (changes : list env_change) (st : os_state) : os_state :=
  foldl (λ st ch, apply_change ch st) st changes.

(** A resource is identified by its name and number, a connector by its
    kind and index. *)
Definition resource_key (r : Resource) : string * nat :=
  (res_name r, res_number r).

Definition connector_key (c : Connector) : string * nat :=
  (conn_name c, conn_number c).

(** The resource of a table with a given name and number, if any. *)
Definition lookup_resource (name : string) (number : nat)
    (rs : list Resource) : option Resource :=
  snd <$> list_find (λ r, resource_key r = (name, number)) rs.

(** The clock constraint attached to a resource, in Hz. *)
Definition resource_clock (r : Resource) : option Z :=
  head (omap (λ io, match io with Clock hz => Some hz | _ => None end)
             (res_ios r)).

(** The pins of the subsignal of a resource with a given name. *)
Definition subsignal_pins (name : string) (r : Resource) : list string :=
  flat_map (λ io, match io with
                  | Subsignal n ios =>
                      if decide (n = name) then flat_map io_pins ios else []
                  | _ => []
                  end) (res_ios r).

(** * Properties *)

(** ** Call logs *)

(** What [guarded] computes: each call satisfying [q] has, strictly before
    it, a returned call satisfying [p]. *)
Lemma guarded_sound p q seen (log : list entry) :
  guarded p q seen log = true →
  ∀ pre c o post, log = pre ++ (c, o) :: post → q c = true →
    seen = true ∨ ∃ c', (c', None) ∈ pre ∧ p c' = true.
Proof.
  revert seen. induction log as [|[c0 o0] log IH]; intros seen Hg pre c o post Heq Hq.
  - by destruct pre.
  - simpl in Hg. apply andb_prop in Hg as [Hhere Hrest].
    destruct pre as [|[c1 o1] pre]; simplify_eq/=.
    + rewrite Hq in Hhere. simpl in Hhere. by left.
    + destruct (IH _ Hrest pre c o post eq_refl Hq) as [Hseen|(c' & Hin & Hp)].
      * apply orb_prop in Hseen as [->|Hnow]; [by left|].
        apply andb_prop in Hnow as [Hp Ho]. apply bool_decide_eq_true in Ho as ->.
        right. exists c1. split; [left|done].
      * right. exists c'. split; [by right|done].
Qed.

(** ** Executing the methods *)

(** Each method is a straight line of external calls, so its run is a
    decision tree over the outcomes of those calls.  The three lemmas below
    give the tree of each method: the result and the complete log on every
    path. *)
Lemma toolchain_program_run probe products name :
  run (toolchain_program probe products name) =
  match connect probe with
  | Some e => (Raise e, [(ApolloDebugger_new, Some e)])
  | None =>
    match products !! bit_key name with
    | None =>
        (Raise ArtifactNotFound,
         [(ApolloDebugger_new, None);
          (products_get (bit_key name), Some ArtifactNotFound)])
    | Some bs =>
      match acquire probe JTAG with
      | Some e =>
          (Raise e,
           [(ApolloDebugger_new, None); (products_get (bit_key name), None);
            (channel_enter JTAG, Some e)])
      | None =>
          (outcome (configure probe bs),
           [(ApolloDebugger_new, None); (products_get (bit_key name), None);
            (channel_enter JTAG, None);
            (jtag_configure bs, configure probe bs);
            (channel_exit JTAG, None)])
      end
    end
  end.
Proof.
  unfold run, toolchain_program, ApolloDebugger, BuildProducts_get,
    with_channel, external, mbind, M_bind, bind; simpl.
  destruct (connect probe); [done|].
  destruct (products !! bit_key name) as [bs|]; [|done].
  destruct (acquire probe JTAG); [done|].
  by destruct (configure probe bs).
Qed.

Lemma toolchain_flash_run probe products name :
  run (toolchain_flash probe products name) =
  let key := bit_key (default "top" name) in
  match connect probe with
  | Some e => (Raise e, [(ApolloDebugger_new, Some e)])
  | None =>
    match ensure_gateware probe with
    | Some e =>
        (Raise e, [(ApolloDebugger_new, None); (ensure_gateware_call, Some e)])
    | None =>
      match products !! key with
      | None =>
          (Raise ArtifactNotFound,
           [(ApolloDebugger_new, None); (ensure_gateware_call, None);
            (products_get key, Some ArtifactNotFound)])
      | Some bs =>
        match acquire probe Flash with
        | Some e =>
            (Raise e,
             [(ApolloDebugger_new, None); (ensure_gateware_call, None);
              (products_get key, None); (channel_enter Flash, Some e)])
        | None =>
          match program_flash probe bs with
          | Some e =>
              (Raise e,
               [(ApolloDebugger_new, None); (ensure_gateware_call, None);
                (products_get key, None); (channel_enter Flash, None);
                (flash_program bs, Some e); (channel_exit Flash, None)])
          | None =>
              (outcome (soft_reset probe),
               [(ApolloDebugger_new, None); (ensure_gateware_call, None);
                (products_get key, None); (channel_enter Flash, None);
                (flash_program bs, None); (channel_exit Flash, None);
                (debugger_soft_reset, soft_reset probe)])
          end
        end
      end
    end
  end.
Proof.
  unfold run, toolchain_flash, ApolloDebugger, ensure_flash_gateware_loaded,
    BuildProducts_get, with_channel, external, mbind, M_bind, bind; simpl.
  destruct (connect probe); [done|].
  destruct (ensure_gateware probe); [done|].
  destruct (products !! bit_key (default "top" name)) as [bs|]; [|done].
  destruct (acquire probe Flash); [done|].
  destruct (program_flash probe bs); [done|].
  by destruct (soft_reset probe).
Qed.

Lemma toolchain_erase_run probe :
  run (toolchain_erase probe) =
  match connect probe with
  | Some e => (Raise e, [(ApolloDebugger_new, Some e)])
  | None =>
    match ensure_gateware probe with
    | Some e =>
        (Raise e, [(ApolloDebugger_new, None); (ensure_gateware_call, Some e)])
    | None =>
      match acquire probe Flash with
      | Some e =>
          (Raise e,
           [(ApolloDebugger_new, None); (ensure_gateware_call, None);
            (channel_enter Flash, Some e)])
      | None =>
        match erase_flash probe with
        | Some e =>
            (Raise e,
             [(ApolloDebugger_new, None); (ensure_gateware_call, None);
              (channel_enter Flash, None); (flash_erase, Some e);
              (channel_exit Flash, None)])
        | None =>
            (outcome (soft_reset probe),
             [(ApolloDebugger_new, None); (ensure_gateware_call, None);
              (channel_enter Flash, None); (flash_erase, None);
              (channel_exit Flash, None);
              (debugger_soft_reset, soft_reset probe)])
        end
      end
    end
  end.
Proof.
  unfold run, toolchain_erase, ApolloDebugger, ensure_flash_gateware_loaded,
    with_channel, external, mbind, M_bind, bind; simpl.
  destruct (connect probe); [done|].
  destruct (ensure_gateware probe); [done|].
  destruct (acquire probe Flash); [done|].
  destruct (erase_flash probe); [done|].
  by destruct (soft_reset probe).
Qed.

(** Split a goal on every outcome that a run still depends on. *)
Ltac by_outcome :=
  cbv zeta;
  repeat match goal with
    | |- context [connect ?p] => destruct (connect p) eqn:?
    | |- context [ensure_gateware ?p] => destruct (ensure_gateware p) eqn:?
    | |- context [?m !! ?k] => destruct (m !! k) eqn:?
    | |- context [acquire ?p ?c] => destruct (acquire p c) eqn:?
    | |- context [configure ?p ?b] => destruct (configure p b) eqn:?
    | |- context [program_flash ?p ?b] => destruct (program_flash p b) eqn:?
    | |- context [erase_flash ?p] => destruct (erase_flash p) eqn:?
    | |- context [soft_reset ?p] => destruct (soft_reset p) eqn:?
    end;
  simpl in *.

(** Membership of an entry in an explicit log. *)
Ltac in_log :=
  rewrite ?elem_of_cons, ?elem_of_nil; intros;
  destruct_or?; simplify_eq; eauto 10.

(** ** The programming methods: claims *)

(** C1, as stated, does not hold.  With an empty artifact store and a
    reachable probe, [toolchain_program] does fail with [ArtifactNotFound],
    but by then it has opened the debug connection: the connection is
    created before the artifact is looked up. *)
Lemma program_missing_artifact_connects :
  (∅ : gmap string bitstream) !! bit_key "top" = None
  ∧ ¬ ((run (toolchain_program healthy ∅ "top")).1 = Raise ArtifactNotFound
       ∧ count_calls is_connect (run (toolchain_program healthy ∅ "top")).2 = 0).
Proof.
  split; [done|]. intros [_ Hcount].
  rewrite toolchain_program_run in Hcount. simpl in Hcount. discriminate.
Qed.

(** In [toolchain_program] a lookup in the artifact store only comes after
    the connection was opened, and in the flash methods a use of the flash
    sub-channel only after the gateware repair step returned. *)
Lemma lookup_guarded probe products name :
  guarded is_connect is_get false
    (run (toolchain_program probe products name)).2 = true.
Proof. rewrite toolchain_program_run. by_outcome; reflexivity. Qed.

Lemma flash_use_guarded probe products oname :
  guarded is_ensure (uses Flash) false
    (run (toolchain_flash probe products oname)).2 = true
  ∧ guarded is_ensure (uses Flash) false (run (toolchain_erase probe)).2 = true.
Proof.
  rewrite toolchain_flash_run, toolchain_erase_run.
  split; by_outcome; reflexivity.
Qed.

(** C1, amended.  When the key ["<name>.bit"] is absent from the artifact
    store, [toolchain_program] opens the debug connection exactly once, as
    its first call and before the lookup.  If the probe is reachable it
    then looks the key up and fails with [ArtifactNotFound]; otherwise it
    fails with the probe's own error and never looks the key up.  On either
    path no sub-channel is acquired and no hardware-mutating call is made. *)
Theorem program_missing_artifact probe products name :
  products !! bit_key name = None →
  let r := run (toolchain_program probe products name) in
  count_calls is_connect r.2 = 1
  ∧ (connect probe = None → r.1 = Raise ArtifactNotFound)
  ∧ (∀ e, connect probe = Some e → r.1 = Raise e)
  ∧ acquired JTAG r.2 = 0 ∧ acquired Flash r.2 = 0
  ∧ count_calls is_hw_mutation r.2 = 0
  ∧ (connect probe = None →
     r.2 = [(ApolloDebugger_new, None);
            (products_get (bit_key name), Some ArtifactNotFound)])
  ∧ (∀ e, connect probe = Some e → r.2 = [(ApolloDebugger_new, Some e)])
  ∧ (∀ pre k o post, r.2 = pre ++ (products_get k, o) :: post →
     (ApolloDebugger_new, None) ∈ pre).
Proof.
  intros Habsent r.
  assert (∀ pre k o post, r.2 = pre ++ (products_get k, o) :: post →
            (ApolloDebugger_new, None) ∈ pre) as Horder.
  { intros pre k o post Hlog.
    destruct (guarded_sound _ _ _ _ (lookup_guarded probe products name)
                _ _ _ _ Hlog eq_refl) as [?|(c' & Hin & Hc')]; [done|].
    by destruct c'. }
  revert Horder. subst r. rewrite toolchain_program_run, Habsent.
  destruct (connect probe) as [e|]; simpl; intros Horder;
    repeat split; try congruence; exact Horder.
Qed.

Lemma program_missing_artifact_witness :
  let r := run (toolchain_program healthy ∅ "top") in
  count_calls is_connect r.2 = 1
  ∧ r.1 = Raise ArtifactNotFound
  ∧ r.2 = [(ApolloDebugger_new, None);
           (products_get (bit_key "top"), Some ArtifactNotFound)]
  ∧ (ApolloDebugger_new, None : option exn)
    ∈ [(ApolloDebugger_new, None : option exn)].
Proof.
  intros r.
  destruct (program_missing_artifact healthy ∅ "top")
    as (Hcount & Hresult & _ & _ & _ & _ & Hlog & _ & Horder);
    [reflexivity|].
  split; [exact Hcount|]. split; [apply Hresult; reflexivity|].
  split; [apply Hlog; reflexivity|].
  apply (Horder [(ApolloDebugger_new, None)] (bit_key "top")
           (Some ArtifactNotFound) []).
  reflexivity.
Defined.

(** C3.  [toolchain_program] issues no soft reset on any execution,
    successful or failed; [toolchain_flash] and [toolchain_erase] each issue
    exactly one soft reset on every successful execution. *)
Theorem soft_reset_discipline probe products name oname :
  count_calls is_soft_reset (run (toolchain_program probe products name)).2 = 0
  ∧ ((run (toolchain_flash probe products oname)).1 = Ok tt →
     count_calls is_soft_reset (run (toolchain_flash probe products oname)).2 = 1)
  ∧ ((run (toolchain_erase probe)).1 = Ok tt →
     count_calls is_soft_reset (run (toolchain_erase probe)).2 = 1).
Proof.
  rewrite toolchain_program_run, toolchain_flash_run, toolchain_erase_run.
  split; [|split].
  - by_outcome; reflexivity.
  - by_outcome; intros Hok; (discriminate Hok || reflexivity).
  - by_outcome; intros Hok; (discriminate Hok || reflexivity).
Qed.

Lemma soft_reset_discipline_witness :
  count_calls is_soft_reset
    (run (toolchain_program healthy {[ "top.bit" := [x00] ]} "top")).2 = 0
  ∧ count_calls is_soft_reset
      (run (toolchain_flash healthy {[ "top.bit" := [x00] ]} None)).2 = 1
  ∧ count_calls is_soft_reset (run (toolchain_erase healthy)).2 = 1.
Proof.
  destruct (soft_reset_discipline healthy {[ "top.bit" := [x00] ]} "top" None)
    as (Hprogram & Hflash & Herase).
  split; [exact Hprogram|].
  split; [apply Hflash|apply Herase]; reflexivity.
Defined.



(** C5, as stated, does not hold for the probe connection.  When the
    hardware step of [toolchain_program] fails, the JTAG sub-channel is
    released, but the connection opened by [ApolloDebugger()] is not: the
    method exits with the connection still open. *)
Lemma failed_program_leaves_connection_open :
  let r := run (toolchain_program faulty_programmer
                  {[ "top.bit" := [x00] ]} "top") in
  r.1 = Raise ProgramError
  ∧ ¬ (balanced r.2 ∧ connection_open false r.2 = false).
Proof.
  intros r. subst r. rewrite toolchain_program_run. simpl.
  split; [reflexivity|]. intros [_ Hclosed]. discriminate Hclosed.
Qed.

(** C5, amended.  On every exit path of [toolchain_program],
    [toolchain_flash] and [toolchain_erase], whatever call fails, every
    sub-channel that was acquired has been released: acquisitions and
    releases are balanced, no sub-channel is still held when the method
    exits, and every hardware-mutating call, failed or not, is followed by
    the release of a sub-channel.  The probe connection itself is not
    released by these methods: it is open at exit exactly when
    [ApolloDebugger()] returned, on success and on failure alike. *)
Theorem channels_released probe products name oname :
  let scoped (log : list entry) :=
    balanced log
    ∧ connection_open false log
      = match connect probe with None => true | Some _ => false end in
  scoped (run (toolchain_program probe products name)).2
  ∧ scoped (run (toolchain_flash probe products oname)).2
  ∧ scoped (run (toolchain_erase probe)).2.
Proof.
  rewrite toolchain_program_run, toolchain_flash_run, toolchain_erase_run.
  unfold balanced. cbv zeta beta.
  repeat split; by_outcome; (reflexivity || lia || by intros []).
Qed.

(** The fault-injected scenario behind C5: the hardware step of
    [toolchain_program] fails, and the JTAG sub-channel is still released. *)
Example program_fault_injected :
  run (toolchain_program faulty_programmer {[ "top.bit" := [x00] ]} "top")
  = (Raise ProgramError,
     [(ApolloDebugger_new, None); (products_get "top.bit", None);
      (channel_enter JTAG, None); (jtag_configure [x00], Some ProgramError);
      (channel_exit JTAG, None)]).
Proof. reflexivity. Qed.

(** C7, as stated, does not hold: when the probe cannot be reached,
    [toolchain_flash] and [toolchain_erase] stop at [ApolloDebugger()] and
    the gateware repair step is not performed at all. *)
Lemma unreachable_probe_skips_repair :
  ¬ ((∃ o, (ensure_gateware_call, o)
           ∈ (run (toolchain_flash unreachable {[ "top.bit" := [x00] ]} None)).2)
     ∧ (∃ o, (ensure_gateware_call, o) ∈ (run (toolchain_erase unreachable)).2)).
Proof.
  rewrite toolchain_flash_run, toolchain_erase_run. simpl.
  intros [[o Hin] _]. rewrite elem_of_cons, elem_of_nil in Hin.
  by destruct Hin.
Qed.

(** C7, amended.  In every execution of [toolchain_flash] and of
    [toolchain_erase] in which the debug connection opens, the gateware
    repair step [ensure_flash_gateware_loaded] is performed, exactly once
    and immediately after the connection was opened.  In every execution,
    any use of the flash sub-channel (acquiring it, programming, erasing,
    releasing it) comes after a call of the repair step that returned.
    When the connection cannot be opened, the step is not performed and no
    other call is made. *)
Theorem gateware_ensured_first probe products oname :
  let ensured (log : list entry) :=
    (connect probe = None →
     (∃ rest, log = (ApolloDebugger_new, None)
                    :: (ensure_gateware_call, ensure_gateware probe) :: rest)
     ∧ count_calls is_ensure log = 1)
    ∧ (∀ e, connect probe = Some e → log = [(ApolloDebugger_new, Some e)])
    ∧ (∀ pre c o post, log = pre ++ (c, o) :: post → uses Flash c = true →
       (ensure_gateware_call, None) ∈ pre) in
  ensured (run (toolchain_flash probe products oname)).2
  ∧ ensured (run (toolchain_erase probe)).2.
Proof.
  assert (∀ log, guarded is_ensure (uses Flash) false log = true →
            ∀ pre c o post, log = pre ++ (c, o) :: post →
              uses Flash c = true → (ensure_gateware_call, None) ∈ pre)
    as Horder.
  { intros log Hguard pre c o post Hlog Huse.
    destruct (guarded_sound _ _ _ _ Hguard _ _ _ _ Hlog Huse)
      as [?|(c' & Hin & Hc')]; [done|].
    by destruct c'. }
  destruct (flash_use_guarded probe products oname) as [Hflash Herase].
  pose proof (Horder _ Hflash) as Hflash'. pose proof (Horder _ Herase) as Herase'.
  clear Horder Hflash Herase. revert Hflash' Herase'.
  rewrite toolchain_flash_run, toolchain_erase_run. cbv zeta beta.
  intros Hflash Herase.
  split; (split; [|split]); try assumption.
  all: by_outcome; intros; simplify_eq; try done;
    (split; [by eexists|done]).
Qed.

Lemma gateware_ensured_first_witness :
  ((∃ rest, (run (toolchain_flash healthy ∅ None)).2
            = (ApolloDebugger_new, None)
              :: (ensure_gateware_call, ensure_gateware healthy) :: rest)
   ∧ count_calls is_ensure (run (toolchain_flash healthy ∅ None)).2 = 1)
  ∧ (ensure_gateware_call, None : option exn)
    ∈ [(ApolloDebugger_new, None : option exn); (ensure_gateware_call, None)].
Proof.
  destruct (gateware_ensured_first healthy ∅ None)
    as [(Hflash & _ & _) (_ & _ & Herase)].
  split; [apply Hflash; reflexivity|].
  apply (Herase [(ApolloDebugger_new, None); (ensure_gateware_call, None)]
           (channel_enter Flash) None
           [(flash_erase, None); (channel_exit Flash, None);
            (debugger_soft_reset, None)]); reflexivity.
Defined.

(** C8.  For every build name, [toolchain_program] and [toolchain_flash]
    look the artifact up under the key ["<name>.bit"] and under no other
    key, they do so whenever the steps before the lookup succeed, and the
    image they hand to the programmer is the one stored under that key;
    [toolchain_flash] called without a name behaves as with the name
    ["top"]. *)
Theorem artifact_key probe products name :
  let key := name +:+ ".bit" in
  let program_log := (run (toolchain_program probe products name)).2 in
  let flash_log := (run (toolchain_flash probe products (Some name))).2 in
  (∀ k o, (products_get k, o) ∈ program_log → k = key)
  ∧ (∀ k o, (products_get k, o) ∈ flash_log → k = key)
  ∧ (connect probe = None → ∃ o, (products_get key, o) ∈ program_log)
  ∧ (connect probe = None → ensure_gateware probe = None →
     ∃ o, (products_get key, o) ∈ flash_log)
  ∧ (∀ bs o, (jtag_configure bs, o) ∈ program_log → products !! key = Some bs)
  ∧ (∀ bs o, (flash_program bs, o) ∈ flash_log → products !! key = Some bs)
  ∧ toolchain_flash probe products None
    = toolchain_flash probe products (Some "top").
Proof.
  intros key program_log flash_log. subst program_log flash_log.
  rewrite toolchain_program_run, toolchain_flash_run. fold (bit_key name).
  subst key. fold (bit_key name). simpl default.
  repeat split.
  - intros k o. by_outcome; in_log.
  - intros k o. by_outcome; in_log.
  - intros ->. by_outcome; eexists; in_log.
  - intros -> ->. by_outcome; eexists; in_log.
  - intros bs o. by_outcome; in_log.
  - intros bs o. by_outcome; in_log.
Qed.


Lemma artifact_key_witness :
  let products : gmap string bitstream := {[ "top.bit" := [x00] ]} in
  (∃ o, (products_get "top.bit", o)
        ∈ (run (toolchain_program healthy products "top")).2)
  ∧ (∃ o, (products_get "top.bit", o)
          ∈ (run (toolchain_flash healthy products (Some "top"))).2)
  ∧ products !! "top.bit" = Some [x00].
Proof.
  intros products.
  destruct (artifact_key healthy products "top")
    as (_ & _ & Hprogram & Hflash & Himage & _ & _).
  split; [apply Hprogram; reflexivity|].
  split; [apply Hflash; reflexivity|].
  apply (Himage [x00] None). vm_compute. repeat constructor.
Defined.

(** C10, as stated, does not hold: an execution that fails before it
    reaches its sub-channel performs no hardware-mutating call at all.
    Here the probe is unreachable and [toolchain_program] stops at
    [ApolloDebugger()]. *)
Lemma unreachable_probe_no_hw_call :
  let products : gmap string bitstream := {[ "top.bit" := [x00] ]} in
  let program := run (toolchain_program unreachable products "top") in
  let flash := run (toolchain_flash unreachable products None) in
  let erase := run (toolchain_erase unreachable) in
  ¬ ((count_calls (uses Flash) program.2 = 0
      ∧ count_calls (uses JTAG) flash.2 = 0
      ∧ count_calls (uses JTAG) erase.2 = 0)
     ∧ (count_calls is_hw_mutation program.2 = 1
        ∧ count_calls is_hw_mutation flash.2 = 1
        ∧ count_calls is_hw_mutation erase.2 = 1)).
Proof.
  intros products program flash erase. subst program flash erase.
  rewrite toolchain_program_run. simpl.
  intros (_ & Hone & _). discriminate Hone.
Qed.

(** C10, amended.  In every execution [toolchain_program] makes no call on
    the flash sub-channel, and [toolchain_flash] and [toolchain_erase] make
    no call on the JTAG sub-channel.  Each method makes at most one
    hardware-mutating call, always of its own kind ([configure] for
    program, [program] for flash, [erase] for erase): exactly one in every
    execution that acquires its sub-channel, so in every successful
    execution, and none in an execution that fails before that. *)
Theorem channel_frame probe products name oname :
  let program := run (toolchain_program probe products name) in
  let flash := run (toolchain_flash probe products oname) in
  let erase := run (toolchain_erase probe) in
  (count_calls (uses Flash) program.2 = 0
   ∧ count_calls (uses JTAG) flash.2 = 0
   ∧ count_calls (uses JTAG) erase.2 = 0)
  ∧ (count_calls is_hw_mutation program.2 = count_calls is_configure program.2
     ∧ count_calls is_hw_mutation flash.2 = count_calls is_flash_program flash.2
     ∧ count_calls is_hw_mutation erase.2 = count_calls is_flash_erase erase.2)
  ∧ (count_calls is_hw_mutation program.2 = acquired JTAG program.2
     ∧ count_calls is_hw_mutation flash.2 = acquired Flash flash.2
     ∧ count_calls is_hw_mutation erase.2 = acquired Flash erase.2)
  ∧ (acquired JTAG program.2 ≤ 1
     ∧ acquired Flash flash.2 ≤ 1
     ∧ acquired Flash erase.2 ≤ 1)
  ∧ ((program.1 = Ok tt → count_calls is_hw_mutation program.2 = 1)
     ∧ (flash.1 = Ok tt → count_calls is_hw_mutation flash.2 = 1)
     ∧ (erase.1 = Ok tt → count_calls is_hw_mutation erase.2 = 1)).
Proof.
  intros program flash erase. subst program flash erase.
  rewrite toolchain_program_run, toolchain_flash_run, toolchain_erase_run.
  repeat split; by_outcome; try (intros Hok; discriminate Hok); lia.
Qed.

Lemma channel_frame_witness :
  let products : gmap string bitstream := {[ "top.bit" := [x00] ]} in
  count_calls is_hw_mutation (run (toolchain_program healthy products "top")).2 = 1
  ∧ count_calls is_hw_mutation (run (toolchain_flash healthy products None)).2 = 1
  ∧ count_calls is_hw_mutation (run (toolchain_erase healthy)).2 = 1.
Proof.
  intros products.
  destruct (channel_frame healthy products "top" None)
    as (_ & _ & _ & _ & Hprogram & Hflash & Herase).
  split; [apply Hprogram|split; [apply Hflash|apply Herase]]; reflexivity.
Defined.

(** ** Option merging: claims *)

Lemma overrides_conflict (kwargs : gmap string string) :
  ({[ "ecppack_opts" := "--compress --freq 38.8" ]} : gmap string string)
    ##ₘ kwargs
  ↔ kwargs !! "ecppack_opts" = None.
Proof. apply map_disjoint_singleton_l. Qed.

Lemma merged_plan_mandated {Fragment} (fragment : Fragment) name
    (kwargs : gmap string string) :
  kwargs !! "ecppack_opts" = None →
  mandated (super_toolchain_prepare fragment name
              ({[ "ecppack_opts" := "--compress --freq 38.8" ]} ∪ kwargs)).
Proof.
  intros Hfree.
  assert (({[ "ecppack_opts" := "--compress --freq 38.8" ]} ∪ kwargs)
            !! "ecppack_opts" = Some "--compress --freq 38.8") as Hopt.
  { apply lookup_union_Some_l, lookup_singleton_eq. }
  unfold mandated, compression_enabled, config_frequency, ecppack_words.
  simpl plan_options. rewrite Hopt. simpl default.
  split; [done|]. split; [|reflexivity].
  apply bool_decide_eq_true. vm_compute. repeat constructor.
Qed.

(** What [toolchain_prepare] does, by cases on the reserved keys. *)
Lemma toolchain_prepare_cases {Fragment} (fragment : Fragment) name
    (options : gmap string string) :
  toolchain_prepare fragment name options
  = if decide (Forall (λ k, options !! k = None) reserved_keys)
    then Ok (super_toolchain_prepare fragment name
               ({[ "ecppack_opts" := "--compress --freq 38.8" ]} ∪ options))
    else Raise TypeError.
Proof.
  unfold toolchain_prepare, bind_kwargs, keyword_call, reserved_keys.
  destruct (decide (Forall _ parameters)) as [Hparams|Hparams]; simpl.
  - destruct (decide (_ ##ₘ options)) as [Hdisj|Hclash]; simpl.
    + rewrite decide_True; [done|].
      constructor; [by apply overrides_conflict|done].
    + rewrite decide_False; [done|].
      intros Hfree. apply Forall_cons in Hfree as [Hfree _].
      by apply Hclash, overrides_conflict.
  - rewrite decide_False; [done|].
    intros Hfree. by apply Forall_cons in Hfree as [_ Hfree].
Qed.

(** C2, as stated, does not hold.  When the caller supplies its own
    [ecppack_opts], the two keyword dictionaries collide and the call
    raises [TypeError]: no invocation is returned, so none that contains
    the mandated options. *)
Lemma prepare_conflict_rejected :
  toolchain_prepare tt "top" {[ "ecppack_opts" := "--freq 2.4" ]}
    = Raise TypeError
  ∧ ¬ ∃ plan, toolchain_prepare tt "top" {[ "ecppack_opts" := "--freq 2.4" ]}
                = Ok plan ∧ mandated plan.
Proof.
  assert (toolchain_prepare tt "top" {[ "ecppack_opts" := "--freq 2.4" ]}
          = Raise TypeError) as Hraise.
  { rewrite toolchain_prepare_cases, decide_False; [done|].
    intros Hfree. apply Forall_cons in Hfree as [Hfree _].
    by rewrite lookup_singleton_eq in Hfree. }
  split; [exact Hraise|]. intros (plan & Hok & _). congruence.
Qed.

(** An option named like a parameter of the method is rejected in the same
    way, when the call is bound. *)
Example prepare_parameter_name_rejected :
  toolchain_prepare tt "top" {[ "name" := "other" ]} = Raise TypeError.
Proof.
  rewrite toolchain_prepare_cases, decide_False; [done|].
  intros Hfree. unfold reserved_keys, parameters in Hfree.
  rewrite !Forall_cons in Hfree.
  destruct Hfree as (_ & _ & _ & Hname & _).
  by rewrite lookup_singleton_eq in Hname.
Qed.

(** C2, amended.  For every caller option set that gives none of the
    reserved keys ([ecppack_opts] and the parameter names [self],
    [fragment] and [name]), [toolchain_prepare] returns an invocation for
    the given fragment and name that contains the mandated packer options
    (compression enabled, configuration-clock frequency 38.8) and every
    caller option unchanged.  When the caller does give a reserved key, the
    call fails with [TypeError] and returns no invocation.  Hence whatever
    the caller supplies, an invocation that is returned contains the
    mandated options: caller options never override them. *)
Theorem prepare_mandated {Fragment} (fragment : Fragment) name
    (kwargs : gmap string string) :
  (Forall (λ k, kwargs !! k = None) reserved_keys →
   ∃ plan, toolchain_prepare fragment name kwargs = Ok plan
     ∧ mandated plan
     ∧ plan_fragment plan = fragment ∧ plan_name plan = name
     ∧ ∀ k v, kwargs !! k = Some v → plan_options plan !! k = Some v)
  ∧ (∀ k, k ∈ reserved_keys → is_Some (kwargs !! k) →
     toolchain_prepare fragment name kwargs = Raise TypeError)
  ∧ (∀ plan, toolchain_prepare fragment name kwargs = Ok plan → mandated plan).
Proof.
  rewrite toolchain_prepare_cases.
  destruct (decide (Forall _ reserved_keys)) as [Hfree|Hclash].
  - assert (kwargs !! "ecppack_opts" = None) as Hopt
      by (by apply Forall_cons in Hfree as [? _]).
    split; [|split].
    + intros _. eexists. split; [reflexivity|].
      split; [by apply merged_plan_mandated|].
      split; [done|]. split; [done|].
      intros k v Hk. simpl. apply lookup_union_Some; [|by right].
      by apply overrides_conflict.
    + intros k Hk [v Hv]. rewrite Forall_forall in Hfree.
      specialize (Hfree k Hk). congruence.
    + intros plan [= <-]. by apply merged_plan_mandated.
  - split; [done|]. split; [done|]. by intros plan.
Qed.

Lemma prepare_mandated_witness :
  (∃ plan, toolchain_prepare tt "top" {[ "synth_opts" := "-abc9" ]} = Ok plan
     ∧ mandated plan
     ∧ plan_options plan !! "synth_opts" = Some "-abc9")
  ∧ toolchain_prepare tt "top" {[ "ecppack_opts" := "--freq 2.4" ]}
    = Raise TypeError
  ∧ toolchain_prepare tt "top" {[ "fragment" := "f" ]} = Raise TypeError.
Proof.
  split; [|split].
  - destruct (prepare_mandated tt "top" {[ "synth_opts" := "-abc9" ]})
      as (Hfree & _ & _).
    destruct Hfree as (plan & Hplan & Hmandated & _ & _ & Hkept);
      [repeat constructor|].
    exists plan. split; [exact Hplan|]. split; [exact Hmandated|].
    apply Hkept. reflexivity.
  - destruct (prepare_mandated tt "top" {[ "ecppack_opts" := "--freq 2.4" ]})
      as (_ & Hclash & _).
    apply (Hclash "ecppack_opts").
    + repeat constructor.
    + exists "--freq 2.4". reflexivity.
  - destruct (prepare_mandated tt "top" {[ "fragment" := "f" ]})
      as (_ & Hclash & _).
    apply (Hclash "fragment").
    + repeat constructor.
    + exists "f". reflexivity.
Defined.

(** ** The class data: claims *)

Lemma change_env_all_class changes p :
  proc_cls (change_env_all changes p) = proc_cls p.
Proof.
  revert p. induction changes as [|ch changes IH]; intros p; [done|].
  unfold change_env_all in *. simpl. by rewrite IH.
Qed.

Lemma change_env_all_log changes p :
  getenv_log (proc_os (change_env_all changes p)) = getenv_log (proc_os p).
Proof.
  revert p. induction changes as [|ch changes IH]; intros p; [done|].
  unfold change_env_all in *. simpl. rewrite IH. by destruct ch.
Qed.

(** C6.  The speed-grade override [LUNA_SPEED_GRADE] is read exactly once,
    when the descriptor is constructed (the class body runs); the speed
    grade is the override if it is set and the default ["8"] if it is
    absent.  Whatever changes are made to the environment afterwards, the
    environment is not read again, the constructed descriptor is unchanged,
    and a platform instance still reports the speed grade resolved at
    construction. *)
Theorem speed_grade_resolved_once (st : os_state) (changes : list env_change) :
  let p := import_module st in
  let p' := change_env_all changes p in
  speed (proc_cls p)
    = match environ st !! "LUNA_SPEED_GRADE" with Some v => v | None => "8" end
  ∧ getenv_log (proc_os p) = getenv_log st ++ ["LUNA_SPEED_GRADE"]
  ∧ getenv_log (proc_os p') = getenv_log (proc_os p)
  ∧ proc_cls p' = proc_cls p
  ∧ self_speed (instantiate p') = speed (proc_cls p).
Proof.
  intros p p'. subst p'.
  split; [|split; [|split; [|split]]].
  - subst p. simpl. by destruct (environ st !! "LUNA_SPEED_GRADE").
  - reflexivity.
  - apply change_env_all_log.
  - apply change_env_all_class.
  - unfold self_speed, instantiate. simpl. by rewrite change_env_all_class.
Qed.

(** A descriptor built under the override ["6"] keeps it when the override
    is later changed or removed. *)
Example speed_grade_override_kept :
  let p := import_module {| environ := {[ "LUNA_SPEED_GRADE" := "6" ]};
                            getenv_log := [] |} in
  self_speed (instantiate p) = "6"
  ∧ self_speed (instantiate (change_env (setenv "LUNA_SPEED_GRADE" "7") p)) = "6"
  ∧ self_speed (instantiate (change_env (unsetenv "LUNA_SPEED_GRADE") p)) = "6".
Proof. repeat split. Qed.

Lemma resources_connectors_NoDup :
  NoDup (flat_map resource_pins resources
         ++ flat_map connector_pins connectors).
Proof. apply (bool_decide_unpack _). vm_compute. exact I. Qed.

(** Pins named at two positions of a duplicate-free flattened list belong
    to the same position. *)
Lemma NoDup_flat_map_same {A B} (f : A → list B) (l : list A) i j x y b :
  NoDup (flat_map f l) →
  l !! i = Some x → l !! j = Some y → b ∈ f x → b ∈ f y → i = j.
Proof.
  revert i j. induction l as [|a l IH]; intros i j Hnd Hi Hj Hx Hy; [done|].
  simpl in Hnd. apply NoDup_app in Hnd as (_ & Hsep & Hnd).
  assert (∀ k z, l !! k = Some z → b ∈ f z → b ∈ flat_map f l) as Hin.
  { intros k z Hk Hz. apply list_elem_of_In, in_flat_map.
    exists z. split; apply list_elem_of_In; [|done].
    by eapply list_elem_of_lookup_2. }
  destruct i as [|i], j as [|j]; simplify_eq/=; [done| | |].
  - destruct (Hsep b Hx). by eapply Hin.
  - destruct (Hsep b Hy). by eapply Hin.
  - f_equal. by eapply IH.
Qed.

(** C9.  In the constructed descriptor every physical pin appears at most
    once across all resources and all connector pin lists. *)
Theorem pins_disjoint (st : os_state) :
  NoDup (physical_pins (LUNAPlatformRev0D3 st).1).
Proof. exact resources_connectors_NoDup. Qed.

(** Consequences of the pin-disjointness invariant: two distinct resource
    entries never share a pin, and a resource and a connector never do. *)
Corollary resources_share_no_pin i j r1 r2 pin :
  resources !! i = Some r1 → resources !! j = Some r2 →
  pin ∈ resource_pins r1 → pin ∈ resource_pins r2 → i = j.
Proof.
  pose proof resources_connectors_NoDup as Hnd.
  apply NoDup_app in Hnd as (Hnd & _ & _).
  by apply NoDup_flat_map_same.
Qed.

Corollary resource_connector_share_no_pin r c pin :
  r ∈ resources → c ∈ connectors →
  pin ∈ resource_pins r → pin ∉ connector_pins c.
Proof.
  intros Hr Hc Hpin Hpin'.
  pose proof resources_connectors_NoDup as Hnd.
  apply NoDup_app in Hnd as (_ & Hsep & _).
  apply (Hsep pin).
  - apply list_elem_of_In, in_flat_map. exists r.
    by split; apply list_elem_of_In.
  - apply list_elem_of_In, in_flat_map. exists c.
    by split; apply list_elem_of_In.
Qed.

(** * Further properties of the programming methods *)

(** Find a prefix of an explicit log for which [tac] closes the goal. *)
Ltac with_prefix tac :=
  first [ eexists []; solve [tac]
        | eexists [_]; solve [tac]
        | eexists [_; _]; solve [tac]
        | eexists [_; _; _]; solve [tac]
        | eexists [_; _; _; _]; solve [tac]
        | eexists [_; _; _; _; _]; solve [tac]
        | eexists [_; _; _; _; _; _]; solve [tac] ].

(** X1.  Whatever happens later, each method opens the debug connection
    exactly once, and does so before any other call. *)
Theorem connection_opened_first probe products name oname :
  let opens_first (log : list entry) :=
    (∃ rest, log = (ApolloDebugger_new, connect probe) :: rest)
    ∧ count_calls is_connect log = 1 in
  opens_first (run (toolchain_program probe products name)).2
  ∧ opens_first (run (toolchain_flash probe products oname)).2
  ∧ opens_first (run (toolchain_erase probe)).2.
Proof.
  rewrite toolchain_program_run, toolchain_flash_run, toolchain_erase_run.
  repeat split; by_outcome; (reflexivity || by eexists).
Qed.

(** X2.  No error is swallowed or replaced: a method returns normally
    exactly when every call it made returned, and when it raises, the
    error is the one raised by the single call that failed. *)
Theorem errors_surface probe products name oname :
  let surfaced (r : result unit * list entry) :=
    raised r.2 = match r.1 with Ok _ => [] | Raise e => [e] end in
  surfaced (run (toolchain_program probe products name))
  ∧ surfaced (run (toolchain_flash probe products oname))
  ∧ surfaced (run (toolchain_erase probe)).
Proof.
  rewrite toolchain_program_run, toolchain_flash_run, toolchain_erase_run.
  repeat split; by_outcome; reflexivity.
Qed.

(** X3.  A method stops at the first call that fails: every call before
    the failed one returned, and the only thing that may follow it is the
    release of the sub-channel held at that moment.  Nothing is retried and
    no later step (such as the soft reset) is attempted. *)
Theorem stops_at_failure probe products name oname c e :
  let stopped (r : result unit * list entry) :=
    (c, Some e) ∈ r.2 →
    r.1 = Raise e
    ∧ ∃ pre post, r.2 = pre ++ (c, Some e) :: post
        ∧ raised pre = []
        ∧ (post = [] ∨ ∃ ch, channel_of c = Some ch
                             ∧ post = [(channel_exit ch, None)]) in
  stopped (run (toolchain_program probe products name))
  ∧ stopped (run (toolchain_flash probe products oname))
  ∧ stopped (run (toolchain_erase probe)).
Proof.
  rewrite toolchain_program_run, toolchain_flash_run, toolchain_erase_run.
  cbv zeta beta. split; [|split]; by_outcome.
  all: rewrite ?elem_of_cons, ?elem_of_nil; intros Hin;
    destruct_or?; simplify_eq; try done;
    (split; [reflexivity|]);
    with_prefix ltac:(eexists; split; [reflexivity|]; split; [reflexivity|];
                      first [by left | right; by eexists]).
Qed.

Lemma stops_at_failure_witness :
  let r := run (toolchain_erase
                  {| connect := None; ensure_gateware := None;
                     acquire := λ _, None; configure := λ _, None;
                     program_flash := λ _, None;
                     erase_flash := Some FlashError; soft_reset := None |}) in
  r.1 = Raise FlashError
  ∧ ∃ pre post, r.2 = pre ++ (flash_erase, Some FlashError) :: post
      ∧ raised pre = []
      ∧ (post = [] ∨ ∃ ch, channel_of flash_erase = Some ch
                           ∧ post = [(channel_exit ch, None)]).
Proof.
  intros r.
  destruct (stops_at_failure
              {| connect := None; ensure_gateware := None;
                 acquire := λ _, None; configure := λ _, None;
                 program_flash := λ _, None;
                 erase_flash := Some FlashError; soft_reset := None |}
              ∅ "top" None flash_erase FlashError) as (_ & _ & Herase).
  apply Herase. vm_compute. repeat constructor.
Defined.

(** X4.  When the artifact is missing, [toolchain_flash] has nevertheless
    opened the connection and, if the probe is reachable, run the gateware
    repair step of the controller before it fails with [ArtifactNotFound];
    it never acquires the flash sub-channel, never touches the flash and
    never soft-resets. *)
Theorem flash_missing_artifact probe products oname :
  products !! bit_key (default "top" oname) = None →
  let r := run (toolchain_flash probe products oname) in
  count_calls is_connect r.2 = 1
  ∧ (connect probe = None →
     count_calls is_ensure r.2 = 1
     ∧ (ensure_gateware probe = None → r.1 = Raise ArtifactNotFound))
  ∧ (∃ e, r.1 = Raise e)
  ∧ acquired Flash r.2 = 0
  ∧ count_calls is_hw_mutation r.2 = 0
  ∧ count_calls is_soft_reset r.2 = 0.
Proof.
  intros Habsent r. subst r. rewrite toolchain_flash_run. cbv zeta.
  rewrite Habsent.
  destruct (connect probe) as [e|]; [|destruct (ensure_gateware probe) as [e|]];
    simpl; repeat split; try done; by eexists.
Qed.

Lemma flash_missing_artifact_witness :
  let r := run (toolchain_flash healthy ∅ None) in
  count_calls is_ensure r.2 = 1 ∧ r.1 = Raise ArtifactNotFound
  ∧ acquired Flash r.2 = 0.
Proof.
  intros r.
  destruct (flash_missing_artifact healthy ∅ None) as (_ & Hrun & _ & Hacq & _);
    [reflexivity|].
  destruct Hrun as [Hensure Hresult]; [reflexivity|].
  split; [exact Hensure|]. split; [apply Hresult; reflexivity|exact Hacq].
Defined.

(** X5.  In [toolchain_flash] and [toolchain_erase] the soft reset, when it
    is issued, is the last call: it comes right after the flash sub-channel
    was released and only after the hardware operation returned, and no
    earlier call failed.  The outcome of the reset is the outcome of the
    method, so a reset that fails makes the method fail although the flash
    has already been written or erased. *)
Theorem soft_reset_is_last probe products oname o :
  let last_step (r : result unit * list entry) :=
    (debugger_soft_reset, o) ∈ r.2 →
    r.1 = outcome o
    ∧ ∃ pre, r.2 = pre ++ [(channel_exit Flash, None); (debugger_soft_reset, o)]
        ∧ returned is_hw_mutation pre = 1
        ∧ raised pre = []
        ∧ count_calls is_soft_reset pre = 0 in
  last_step (run (toolchain_flash probe products oname))
  ∧ last_step (run (toolchain_erase probe)).
Proof.
  rewrite toolchain_flash_run, toolchain_erase_run.
  cbv zeta beta. split; by_outcome.
  all: rewrite ?elem_of_cons, ?elem_of_nil; intros Hin;
    destruct_or?; simplify_eq; try done;
    (split; [reflexivity|]);
    with_prefix ltac:(repeat split; reflexivity).
Qed.

Lemma soft_reset_is_last_witness :
  let r := run (toolchain_flash failing_reset {[ "top.bit" := [x00] ]} None) in
  r.1 = Raise ConnectionError
  ∧ ∃ pre, r.2 = pre ++ [(channel_exit Flash, None);
                         (debugger_soft_reset, Some ConnectionError)]
      ∧ returned is_hw_mutation pre = 1
      ∧ raised pre = []
      ∧ count_calls is_soft_reset pre = 0.
Proof.
  intros r.
  destruct (soft_reset_is_last failing_reset {[ "top.bit" := [x00] ]} None
              (Some ConnectionError)) as [Hflash _].
  apply Hflash. vm_compute. repeat constructor.
Defined.

(** X6.  A method that returns normally has made exactly the calls of its
    happy path, in order, and nothing else; in particular
    [toolchain_program] and [toolchain_flash] can only succeed when the
    artifact exists, and the image they programmed is the stored one. *)
Theorem success_trace probe products name oname :
  ((run (toolchain_program probe products name)).1 = Ok tt →
   ∃ bs, products !! bit_key name = Some bs
     ∧ (run (toolchain_program probe products name)).2
       = [(ApolloDebugger_new, None); (products_get (bit_key name), None);
          (channel_enter JTAG, None); (jtag_configure bs, None);
          (channel_exit JTAG, None)])
  ∧ ((run (toolchain_flash probe products oname)).1 = Ok tt →
     ∃ bs, products !! bit_key (default "top" oname) = Some bs
       ∧ (run (toolchain_flash probe products oname)).2
         = [(ApolloDebugger_new, None); (ensure_gateware_call, None);
            (products_get (bit_key (default "top" oname)), None);
            (channel_enter Flash, None); (flash_program bs, None);
            (channel_exit Flash, None); (debugger_soft_reset, None)])
  ∧ ((run (toolchain_erase probe)).1 = Ok tt →
     (run (toolchain_erase probe)).2
     = [(ApolloDebugger_new, None); (ensure_gateware_call, None);
        (channel_enter Flash, None); (flash_erase, None);
        (channel_exit Flash, None); (debugger_soft_reset, None)]).
Proof.
  rewrite toolchain_program_run, toolchain_flash_run, toolchain_erase_run.
  split; [|split]; by_outcome; intros Hok; try discriminate Hok;
    try reflexivity; by eexists.
Qed.

Lemma success_trace_witness :
  let products : gmap string bitstream := {[ "top.bit" := [x00] ]} in
  (∃ bs, products !! bit_key "top" = Some bs
     ∧ (run (toolchain_program healthy products "top")).2
       = [(ApolloDebugger_new, None); (products_get (bit_key "top"), None);
          (channel_enter JTAG, None); (jtag_configure bs, None);
          (channel_exit JTAG, None)])
  ∧ (run (toolchain_erase healthy)).2
    = [(ApolloDebugger_new, None); (ensure_gateware_call, None);
       (channel_enter Flash, None); (flash_erase, None);
       (channel_exit Flash, None); (debugger_soft_reset, None)].
Proof.
  intros products.
  destruct (success_trace healthy products "top" None)
    as (Hprogram & _ & Herase).
  split; [apply Hprogram|apply Herase]; reflexivity.
Defined.

(** X7.  [toolchain_program] depends only on the JTAG side of the probe:
    two probes that answer alike on connecting, on acquiring the JTAG
    sub-channel and on configuring give the same run, whatever the state of
    the flash side, the gateware repair step or the soft reset.  Likewise
    [toolchain_flash] and [toolchain_erase] depend only on the flash side. *)
Theorem sides_independent p q products name oname :
  (agree_jtag p q →
   run (toolchain_program p products name)
   = run (toolchain_program q products name))
  ∧ (agree_flash p q →
     run (toolchain_flash p products oname)
     = run (toolchain_flash q products oname)
     ∧ run (toolchain_erase p) = run (toolchain_erase q)).
Proof.
  split.
  - intros (Hconnect & Hacquire & Hconfigure).
    rewrite !toolchain_program_run, Hconnect, Hacquire.
    destruct (connect q); [done|].
    destruct (products !! bit_key name) as [bs|]; [|done].
    by rewrite Hconfigure.
  - intros (Hconnect & Hensure & Hacquire & Hprogram & Herase & Hreset).
    rewrite !toolchain_flash_run, !toolchain_erase_run.
    rewrite Hconnect, Hensure, Hacquire, Herase, Hreset. cbv zeta.
    split; [|done].
    destruct (connect q); [done|]. destruct (ensure_gateware q); [done|].
    destruct (products !! _) as [bs|]; [|done].
    by rewrite Hprogram.
Qed.

Lemma sides_independent_witness :
  run (toolchain_program broken_flash {[ "top.bit" := [x00] ]} "top")
  = run (toolchain_program healthy {[ "top.bit" := [x00] ]} "top").
Proof.
  destruct (sides_independent broken_flash healthy
              {[ "top.bit" := [x00] ]} "top" None) as [Hjtag _].
  apply Hjtag. repeat split.
Defined.

(** X8.  A sub-channel, once acquired, is held for exactly one call, the
    hardware operation, and is released immediately after it, whether that
    call returned or raised; no sub-channel was used before it was
    acquired. *)
Theorem critical_section probe products name oname ch :
  let bracketed (log : list entry) :=
    (channel_enter ch, None) ∈ log →
    ∃ pre c o post,
      log = pre ++ [(channel_enter ch, None); (c, o); (channel_exit ch, None)]
                ++ post
      ∧ is_hw_mutation c = true ∧ channel_of c = Some ch
      ∧ count_calls (λ c, bool_decide (is_Some (channel_of c))) pre = 0
      ∧ count_calls (λ c, bool_decide (is_Some (channel_of c))) post = 0 in
  bracketed (run (toolchain_program probe products name)).2
  ∧ bracketed (run (toolchain_flash probe products oname)).2
  ∧ bracketed (run (toolchain_erase probe)).2.
Proof.
  rewrite toolchain_program_run, toolchain_flash_run, toolchain_erase_run.
  cbv zeta beta. split; [|split]; by_outcome.
  all: rewrite ?elem_of_cons, ?elem_of_nil; intros Hin;
    destruct_or?; simplify_eq; try done;
    with_prefix ltac:(do 3 eexists; repeat split; reflexivity).
Qed.

Lemma critical_section_witness :
  ∃ pre c o post,
    (run (toolchain_program faulty_programmer {[ "top.bit" := [x00] ]} "top")).2
    = pre ++ [(channel_enter JTAG, None); (c, o); (channel_exit JTAG, None)]
          ++ post
    ∧ is_hw_mutation c = true ∧ channel_of c = Some JTAG
    ∧ count_calls (λ c, bool_decide (is_Some (channel_of c))) pre = 0
    ∧ count_calls (λ c, bool_decide (is_Some (channel_of c))) post = 0.
Proof.
  destruct (critical_section faulty_programmer {[ "top.bit" := [x00] ]}
              "top" None JTAG) as [Hprogram _].
  apply Hprogram. vm_compute. repeat constructor.
Defined.

(** * Further properties of option merging and of the class data *)

(** X9.  When [toolchain_prepare] returns, the options of the invocation
    are the caller's options plus exactly one more, [ecppack_opts]: removing
    that key gives the caller's options back, and no other key is added,
    dropped or changed. *)
Theorem prepare_adds_one_option {Fragment} (fragment : Fragment) name
    (kwargs : gmap string string) plan :
  toolchain_prepare fragment name kwargs = Ok plan →
  delete "ecppack_opts" (plan_options plan) = kwargs
  ∧ size (plan_options plan) = S (size kwargs)
  ∧ ∀ k, k ≠ "ecppack_opts" → plan_options plan !! k = kwargs !! k.
Proof.
  rewrite toolchain_prepare_cases.
  destruct (decide (Forall _ reserved_keys)) as [Hfree|]; [|done].
  intros [= <-]. simpl. apply Forall_cons in Hfree as [Hdisj _].
  rewrite <- insert_union_singleton_l.
  split; [|split].
  - rewrite delete_insert_eq. by apply delete_id.
  - by apply map_size_insert_None.
  - intros k Hk. by rewrite lookup_insert_ne.
Qed.

Lemma prepare_adds_one_option_witness :
  ∃ plan, toolchain_prepare tt "top" {[ "synth_opts" := "-abc9" ]} = Ok plan
    ∧ delete "ecppack_opts" (plan_options plan) = {[ "synth_opts" := "-abc9" ]}
    ∧ size (plan_options plan) = 2.
Proof.
  assert (∃ plan, toolchain_prepare tt "top" {[ "synth_opts" := "-abc9" ]}
                  = Ok plan) as [plan Hplan] by (eexists; reflexivity).
  exists plan. split; [exact Hplan|].
  destruct (prepare_adds_one_option tt "top" {[ "synth_opts" := "-abc9" ]}
              plan Hplan) as (Hdelete & Hsize & _).
  split; [exact Hdelete|exact Hsize].
Defined.

Lemma apply_changes_other_keys key changes st :
  Forall (λ ch, change_key ch ≠ key) changes →
  environ (apply_changes changes st) !! key = environ st !! key.
Proof.
  intros Hother. revert st.
  induction Hother as [|ch changes Hch _ IH]; intros st; [done|].
  unfold apply_changes in *. simpl. rewrite IH.
  destruct ch as [k v|k]; simpl in *.
  - by rewrite lookup_insert_ne.
  - by rewrite lookup_delete_ne.
Qed.

Lemma apply_changes_app l1 l2 st :
  apply_changes (l1 ++ l2) st = apply_changes l2 (apply_changes l1 st).
Proof. apply foldl_app. Qed.

Lemma apply_changes_cons ch l st :
  apply_changes (ch :: l) st = apply_changes l (apply_change ch st).
Proof. reflexivity. Qed.

Lemma import_speed st :
  speed (proc_cls (import_module st))
  = default "8" (environ st !! "LUNA_SPEED_GRADE").
Proof. reflexivity. Qed.

(** X10.  Of the changes made to the environment before the descriptor is
    constructed, only the last one that touches [LUNA_SPEED_GRADE] decides
    the speed grade: if it sets the variable the descriptor has that value,
    if it removes the variable the descriptor has the default ["8"], and
    changes to other variables make no difference. *)
Theorem speed_grade_follows_override (st : os_state)
    (before after : list env_change) :
  Forall (λ ch, change_key ch ≠ "LUNA_SPEED_GRADE") after →
  (∀ v, speed (proc_cls (import_module
          (apply_changes (before ++ setenv "LUNA_SPEED_GRADE" v :: after) st)))
        = v)
  ∧ speed (proc_cls (import_module
        (apply_changes (before ++ unsetenv "LUNA_SPEED_GRADE" :: after) st)))
    = "8"
  ∧ speed (proc_cls (import_module (apply_changes after st)))
    = speed (proc_cls (import_module st)).
Proof.
  intros Hother. split; [intros v|split].
  all: rewrite !import_speed, ?apply_changes_app, ?apply_changes_cons.
  all: rewrite !apply_changes_other_keys by done.
  all: cbn [apply_change environ].
  - by rewrite lookup_insert_eq.
  - by rewrite lookup_delete_eq.
  - done.
Qed.

Lemma speed_grade_follows_override_witness :
  let st := {| environ := {[ "LUNA_SPEED_GRADE" := "6" ]}; getenv_log := [] |} in
  speed (proc_cls (import_module
    (apply_changes [unsetenv "LUNA_SPEED_GRADE"; setenv "LUNA_SPEED_GRADE" "7";
                    setenv "HOME" "/root"] st))) = "7"
  ∧ speed (proc_cls (import_module
      (apply_changes [unsetenv "LUNA_SPEED_GRADE"; setenv "HOME" "/root"] st)))
    = "8".
Proof.
  intros st.
  split.
  - destruct (speed_grade_follows_override st [unsetenv "LUNA_SPEED_GRADE"]
                [setenv "HOME" "/root"]) as (Hset & _ & _).
    + repeat constructor. discriminate.
    + apply (Hset "7").
  - destruct (speed_grade_follows_override st [] [setenv "HOME" "/root"])
      as (_ & Hunset & _).
    + repeat constructor. discriminate.
    + exact Hunset.
Defined.

(** X11.  In the constructed descriptor no two resources have the same
    name and number, and no two connectors the same kind and index, so
    every resource and connector can be addressed unambiguously. *)
Theorem identities_unique (st : os_state) :
  NoDup (resource_key <$> cls_resources (LUNAPlatformRev0D3 st).1)
  ∧ NoDup (connector_key <$> cls_connectors (LUNAPlatformRev0D3 st).1).
Proof.
  split; apply (bool_decide_unpack _); vm_compute; exact I.
Qed.

(** X12.  The defaults of the descriptor name resources that exist in its
    table: [default_clk] is the clock input on pin A8, whose 60 MHz
    constraint is the default frequency of the [usb] domain, and
    [default_usb_connection] is a ULPI PHY with eight data pins and one pin
    for each of [clk], [dir], [nxt], [stp] and [rst]. *)
Theorem defaults_resolve (st : os_state) :
  let cls := (LUNAPlatformRev0D3 st).1 in
  (∃ clk mhz,
     lookup_resource (default_clk cls) 0 (cls_resources cls) = Some clk
     ∧ resource_pins clk = ["A8"]
     ∧ DEFAULT_CLOCK_FREQUENCIES_MHZ cls !! "usb" = Some mhz
     ∧ resource_clock clk = Some (mhz * 1000000)%Z)
  ∧ (∃ phy,
       lookup_resource (default_usb_connection cls) 0 (cls_resources cls)
         = Some phy
       ∧ length (subsignal_pins "data" phy) = 8
       ∧ Forall (λ sig, length (subsignal_pins sig phy) = 1)
           ["clk"; "dir"; "nxt"; "stp"; "rst"]).
Proof.
  intros cls. split.
  - eexists _, _. repeat split; reflexivity.
  - eexists. split; [reflexivity|]. split; [reflexivity|].
    repeat constructor.
Qed.

Lemma append_inj_suffix (s1 s2 suffix : string) :
  String.length s1 = String.length s2 → s1 +:+ suffix = s2 +:+ suffix → s1 = s2.
Proof.
  revert s2. induction s1 as [|a s1 IH]; intros [|b s2] Hlen Heq;
    simpl in *; try done.
  injection Heq as -> Heq. f_equal. apply IH; [lia|done].
Qed.

Lemma length_append (s1 s2 : string) :
  String.length (s1 +:+ s2) = String.length s1 + String.length s2.
Proof. induction s1 as [|a s1 IH]; simpl; [done|]. by rewrite IH. Qed.

(** X13.  Distinct build names never resolve to the same artifact: the key
    determines the name.  So the image [toolchain_program] or
    [toolchain_flash] looks up for one name is never the one stored for
    another. *)
Theorem bit_key_inj (name1 name2 : string) :
  bit_key name1 = bit_key name2 → name1 = name2.
Proof.
  intros Heq. apply (append_inj_suffix _ _ ".bit"); [|exact Heq].
  apply (f_equal String.length) in Heq. unfold bit_key in Heq.
  rewrite !length_append in Heq. lia.
Qed.

Lemma bit_key_inj_witness : "top" = "top".
Proof. apply (bit_key_inj "top" "top"). reflexivity. Defined.
